(** * Binary search over a sorted [int] array (algo/c/src/example.c)

    A shallow embedding of [binary_search] and of the demonstration
    [main], followed by the properties of the search.

    - C [int] values are mathematical integers ([Z]); every [int]
      operation of the source is checked against the 32-bit range, and a
      result outside it is the fault [SignedOverflow] (signed overflow is
      undefined in C, so no wrap-around is assumed).
    - The array object behind the parameter [arr] lives in the machine
      state ([mem]); reading outside it is the fault [OutOfBounds].
    - Standard output is the string [out] of the machine state.
    - The [while] loop is iterated by a fuel counter; running out of it is
      the fault [OutOfFuel], shown below never to happen with the fuel
      [binary_search] uses. *)

From Stdlib Require Import ZArith List Lia Bool String Ascii Sorted.
From Stdlib Require Import DecimalString.
Import ListNotations.

Local Open Scope Z_scope.

(** ** Machine integers *)

Module Int.

Definition bits : Z := 32.
Definition min_int : Z := - 2 ^ (bits - 1).
Definition max_int : Z := 2 ^ (bits - 1) - 1.

(** [z] is representable as an [int]. *)
Definition fits (z : Z) : bool := (min_int <=? z) && (z <=? max_int).

End Int.

(** ** Machine state, faults and the execution monad *)

Record state : Type := mkState {
  mem : list Z;      (* the array object [arr] points to *)
  out : string       (* what has been written to standard output *)
}.

Inductive fault : Type :=
| SignedOverflow
| OutOfBounds
| OutOfFuel.

Inductive result (A : Type) : Type :=
| Ok (a : A)
| Stuck (f : fault).

Arguments Ok {A} a.
Arguments Stuck {A} f.

Definition M (A : Type) : Type := state -> result (A * state).

Definition ret {A : Type} (a : A) : M A := fun st => Ok (a, st).

Definition bind {A B : Type} (c : M A) (k : A -> M B) : M B :=
  fun st =>
    match c st with
    | Ok (a, st') => k a st'
    | Stuck f => Stuck f
    end.

Definition stuck {A : Type} (f : fault) : M A := fun _ => Stuck f.

Declare Scope prog_scope.
Delimit Scope prog_scope with prog.
Notation "x <- c ;; k" := (bind c (fun x => k))
  (at level 61, c at next level, right associativity) : prog_scope.
Notation "c ;; k" := (bind c (fun _ => k))
  (at level 61, right associativity) : prog_scope.
Local Open Scope prog_scope.

(** An [int] result: the value when it is representable, a fault
    otherwise. *)
Definition checked (z : Z) : M Z :=
  if Int.fits z then ret z else stuck SignedOverflow.

(** [a + b], [a - b] and [a / b] on [int]; C division truncates toward
    zero ([Z.quot]). *)
Definition add (a b : Z) : M Z := checked (a + b).
Definition sub (a b : Z) : M Z := checked (a - b).
Definition div (a b : Z) : M Z := checked (Z.quot a b).

(** [xs[i]] for an integer index, [None] outside the sequence. *)
Definition index (xs : list Z) (i : Z) : option Z :=
  if i <? 0 then None else nth_error xs (Z.to_nat i).

(** The read [arr[i]]. *)
Definition load (i : Z) : M Z :=
  fun st =>
    match index (mem st) i with
    | Some x => Ok (x, st)
    | None => Stuck OutOfBounds
    end.

(** [printf("%d\n", z)]. *)
Definition newline : string := String (ascii_of_nat 10) EmptyString.

Definition printf_d_nl (z : Z) : M unit :=
  fun st =>
    Ok (tt, mkState (mem st)
                    (out st ++ NilZero.string_of_int (Z.to_int z) ++ newline)).

(** [int arr[] = {...}]: the array object is initialised. *)
Definition init_arr (xs : list Z) : M unit :=
  fun st => Ok (tt, mkState xs (out st)).

(** [sizeof(arr) / sizeof(arr[0])]: the number of elements of the array
    object. *)
Definition count_of_arr : M Z :=
  fun st => Ok (Z.of_nat (List.length (mem st)), st).

(** ** binary_search *)

(** [int mid = left + (right - left) / 2;] *)
Definition midpoint (left right : Z) : M Z :=
  d <- sub right left ;;
  h <- div d 2 ;;
  add left h.

(** What one execution of the loop body decides. *)
Inductive control : Type :=
| Next (left right : Z)     (* go round again with these bounds *)
| Return (v : Z).           (* [return v;] *)

(** The body of the [while] loop. *)
Definition body (target left right : Z) : M control :=
  mid <- midpoint left right ;;
  x <- load mid ;;
  if x =? target then ret (Return mid)
  else
    y <- load mid ;;
    if y <? target then
      left' <- add mid 1 ;;
      ret (Next left' right)
    else
      right' <- sub mid 1 ;;
      ret (Next left right').

(** [while (left <= right) { body }  return -1;] *)
Fixpoint while (fuel : nat) (target left right : Z) : M Z :=
  if left <=? right then
    match fuel with
    | O => stuck OutOfFuel
    | S fuel' =>
        c <- body target left right ;;
        match c with
        | Return v => ret v
        | Next left' right' => while fuel' target left' right'
        end
    end
  else ret (-1).

(** The function with an explicit bound on the number of iterations. *)
Definition binary_search_fuel (fuel : nat) (n target : Z) : M Z :=
  let left := 0 in
  right <- sub n 1 ;;
  while fuel target left right.

(** [int binary_search(int arr[], int n, int target)], the array being
    [mem] of the state it runs in.  The interval [left..right] holds at
    most [n] indices and loses one at least per iteration, so [n]
    iterations are allowed. *)
Definition binary_search (n target : Z) : M Z :=
  binary_search_fuel (Z.to_nat n) n target.

(** ** main *)

Definition demo_arr : list Z := [1; 3; 5; 7; 9; 11; 13].

Definition main : M Z :=
  init_arr demo_arr ;;
  n <- count_of_arr ;;
  r1 <- binary_search n 7 ;;
  printf_d_nl r1 ;;
  r2 <- binary_search n 4 ;;
  printf_d_nl r2 ;;
  ret 0.

(** ** Definitions used by the statements *)

(** Number of elements of the array object, as the caller passes it. *)
Definition arr_len (st : state) : Z := Z.of_nat (List.length (mem st)).

(** What the body decides once it has read [x] at [mid]. *)
Definition decision (target left right mid x : Z) : control :=
  if x =? target then Return mid
  else if x <? target then Next (mid + 1) right
  else Next left (mid - 1).

(** The naive midpoint [(low + high) / 2] the source avoids, for
    comparison only. *)
Definition naive_midpoint (low high : Z) : M Z :=
  s <- add low high ;;
  div s 2.

(** The bounds with which the loop condition of a call
    [binary_search(arr, n, target)] is evaluated: those on entry, and
    those every iteration that goes round again leaves. *)
Inductive reached (n target : Z) (st : state) : Z -> Z -> Prop :=
| reached_entry right :
    sub n 1 st = Ok (right, st) ->
    reached n target st 0 right
| reached_next left right left' right' st' :
    reached n target st left right ->
    left <= right ->
    body target left right st = Ok (Next left' right', st') ->
    reached n target st left' right'.

(** *** Read-only computations

    A computation is read-only when its outcome is a function of the array
    contents alone and it hands back the state it was given. *)

Definition lift {A : Type} (f : list Z -> result A) : M A :=
  fun st =>
    match f (mem st) with
    | Ok a => Ok (a, st)
    | Stuck e => Stuck e
    end.

Definition read_only {A : Type} (c : M A) : Prop :=
  exists f : list Z -> result A, forall st, c st = lift f st.

(** * Properties *)

Ltac int_range :=
  unfold arr_len, Int.max_int, Int.min_int, Int.bits in *; simpl in *; lia.

(** ** Integers and indexing *)

Lemma fits_iff (z : Z) :
  Int.fits z = true <-> Int.min_int <= z <= Int.max_int.
Proof.
  unfold Int.fits. rewrite andb_true_iff, !Z.leb_le. tauto.
Qed.

Lemma int_bounds : Int.min_int = -2147483648 /\ Int.max_int = 2147483647.
Proof. split; reflexivity. Qed.

Lemma checked_ok (z : Z) (st : state) :
  Int.min_int <= z <= Int.max_int -> checked z st = Ok (z, st).
Proof.
  intros H. unfold checked. apply fits_iff in H. now rewrite H.
Qed.

Lemma checked_inv (z v : Z) (st st' : state) :
  checked z st = Ok (v, st') ->
  v = z /\ st' = st /\ Int.min_int <= z <= Int.max_int.
Proof.
  unfold checked. destruct (Int.fits z) eqn:F; [|discriminate].
  unfold ret. intros [= <- <-]. apply fits_iff in F. auto.
Qed.

Lemma checked_stuck (z : Z) (st : state) (f : fault) :
  checked z st = Stuck f -> f = SignedOverflow.
Proof.
  unfold checked. destruct (Int.fits z); [discriminate|].
  unfold stuck. now intros [= <-].
Qed.

Lemma half_bounds (d : Z) : 0 <= d -> 0 <= Z.quot d 2 <= d.
Proof.
  intros Hd. rewrite Z.quot_div_nonneg by lia.
  split; [apply Z.div_pos; lia | apply Z.div_le_upper_bound; lia].
Qed.

Lemma index_Some_lt (xs : list Z) (i x : Z) :
  index xs i = Some x -> 0 <= i < Z.of_nat (List.length xs).
Proof.
  unfold index. destruct (i <? 0) eqn:E; [discriminate|].
  apply Z.ltb_ge in E. intros H.
  assert (Hn : (Z.to_nat i < List.length xs)%nat)
    by (apply nth_error_Some; congruence).
  lia.
Qed.

Lemma index_lt_Some (xs : list Z) (i : Z) :
  0 <= i < Z.of_nat (List.length xs) -> exists x, index xs i = Some x.
Proof.
  intros H. unfold index.
  destruct (i <? 0) eqn:E; [apply Z.ltb_lt in E; lia|].
  destruct (nth_error xs (Z.to_nat i)) as [x|] eqn:N; [now exists x|].
  apply nth_error_None in N. lia.
Qed.

Lemma index_In (xs : list Z) (i x : Z) : index xs i = Some x -> In x xs.
Proof.
  unfold index. destruct (i <? 0); [discriminate|]. apply nth_error_In.
Qed.

Lemma In_index (xs : list Z) (x : Z) :
  In x xs -> exists i, index xs i = Some x.
Proof.
  intros H. apply In_nth_error in H as [k Hk].
  exists (Z.of_nat k). unfold index.
  destruct (Z.of_nat k <? 0) eqn:E; [apply Z.ltb_lt in E; lia|].
  now rewrite Nat2Z.id.
Qed.

(** A sorted sequence is monotone in its indices. *)
Lemma Sorted_index (xs : list Z) :
  Sorted Z.le xs ->
  forall i j x y,
    index xs i = Some x -> index xs j = Some y -> i <= j -> x <= y.
Proof.
  intros HS. apply Sorted_StronglySorted in HS;
    [|intros a b c; apply Z.le_trans].
  induction HS as [|a l HS IH Hall]; intros i j x y Hi Hj Hij.
  - apply index_In in Hi. destruct Hi.
  - pose proof (index_Some_lt _ _ _ Hi) as Bi.
    pose proof (index_Some_lt _ _ _ Hj) as Bj.
    unfold index in Hi, Hj.
    destruct (i <? 0) eqn:Ei; [discriminate|].
    destruct (j <? 0) eqn:Ej; [discriminate|].
    destruct (Z.to_nat i) as [|i'] eqn:Ni; simpl in Hi.
    + injection Hi as <-.
      destruct (Z.to_nat j) as [|j'] eqn:Nj; simpl in Hj.
      * injection Hj as <-. lia.
      * apply nth_error_In in Hj.
        rewrite Forall_forall in Hall. now apply Hall.
    + destruct (Z.to_nat j) as [|j'] eqn:Nj; simpl in Hj; [lia|].
      apply (IH (Z.of_nat i') (Z.of_nat j')); unfold index.
      * destruct (Z.of_nat i' <? 0) eqn:E; [apply Z.ltb_lt in E; lia|].
        now rewrite Nat2Z.id.
      * destruct (Z.of_nat j' <? 0) eqn:E; [apply Z.ltb_lt in E; lia|].
        now rewrite Nat2Z.id.
      * lia.
Qed.

Lemma append_assoc (a b c : string) :
  ((a ++ b) ++ c = a ++ (b ++ c))%string.
Proof. induction a as [|ch a IH]; simpl; [reflexivity | now rewrite IH]. Qed.

(** ** The monad *)

Lemma bind_Ok {A B : Type} (c : M A) (k : A -> M B) st b st' :
  bind c k st = Ok (b, st') ->
  exists a st1, c st = Ok (a, st1) /\ k a st1 = Ok (b, st').
Proof.
  unfold bind. destruct (c st) as [[a st1]|f]; [|discriminate].
  intros H. now exists a, st1.
Qed.

Lemma bind_Stuck {A B : Type} (c : M A) (k : A -> M B) st f :
  bind c k st = Stuck f ->
  c st = Stuck f \/ exists a st1, c st = Ok (a, st1) /\ k a st1 = Stuck f.
Proof.
  unfold bind. destruct (c st) as [[a st1]|f'].
  2:{ intros [= ->]. now left. }
  intros H. right. now exists a, st1.
Qed.

Lemma bind_step {A B : Type} (c : M A) (k : A -> M B) st a st1 :
  c st = Ok (a, st1) -> bind c k st = k a st1.
Proof. unfold bind. now intros ->. Qed.

Lemma load_inv (i x : Z) (st st' : state) :
  load i st = Ok (x, st') -> st' = st /\ index (mem st) i = Some x.
Proof.
  unfold load. destruct (index (mem st) i) as [y|] eqn:E; [|discriminate].
  intros [= <- <-]. auto.
Qed.

Lemma load_ok (i x : Z) (st : state) :
  index (mem st) i = Some x -> load i st = Ok (x, st).
Proof. unfold load. now intros ->. Qed.

(** ** One iteration *)

Lemma midpoint_inv (left right m : Z) (st st' : state) :
  midpoint left right st = Ok (m, st') ->
  m = left + Z.quot (right - left) 2 /\ st' = st.
Proof.
  unfold midpoint, sub, div, add. intros H.
  apply bind_Ok in H as (d & s1 & Hd & H).
  apply bind_Ok in H as (h & s2 & Hh & H).
  apply checked_inv in Hd as (-> & -> & _).
  apply checked_inv in Hh as (-> & -> & _).
  apply checked_inv in H as (-> & -> & _). auto.
Qed.

Lemma midpoint_ok (left right : Z) (st : state) :
  0 <= left <= right -> right <= Int.max_int ->
  midpoint left right st = Ok (left + Z.quot (right - left) 2, st).
Proof.
  intros H Hr. pose proof int_bounds as [Hmin Hmax].
  pose proof (half_bounds (right - left)) as Hq.
  unfold midpoint, sub, div, add.
  rewrite (bind_step _ _ _ _ _ (checked_ok (right - left) st ltac:(lia))).
  rewrite (bind_step _ _ _ _ _
             (checked_ok (Z.quot (right - left) 2) st ltac:(lia))).
  apply checked_ok. lia.
Qed.

Lemma body_inv (target left right : Z) (c : control) (st st' : state) :
  body target left right st = Ok (c, st') ->
  st' = st /\
  exists x, index (mem st) (left + Z.quot (right - left) 2) = Some x /\
            c = decision target left right
                  (left + Z.quot (right - left) 2) x.
Proof.
  unfold body. intros H.
  apply bind_Ok in H as (mid & s1 & Hm & H).
  apply midpoint_inv in Hm as (-> & ->).
  apply bind_Ok in H as (x & s2 & Hx & H).
  apply load_inv in Hx as (-> & Hx).
  cut (st' = st /\
       c = decision target left right (left + Z.quot (right - left) 2) x).
  { intros [? ?]. eauto. }
  unfold decision. destruct (x =? target).
  - unfold ret in H. injection H as <- <-. auto.
  - apply bind_Ok in H as (y & s3 & Hy & H).
    apply load_inv in Hy as (-> & Hy).
    assert (y = x) by congruence. subst y.
    destruct (x <? target).
    + apply bind_Ok in H as (l' & s4 & Hl & H).
      apply checked_inv in Hl as (-> & -> & _).
      unfold ret in H. injection H as <- <-. auto.
    + apply bind_Ok in H as (r' & s4 & Hr & H).
      apply checked_inv in Hr as (-> & -> & _).
      unfold ret in H. injection H as <- <-. auto.
Qed.

Lemma body_ok (target left right : Z) (st : state) :
  0 <= left <= right ->
  right < Z.of_nat (List.length (mem st)) ->
  Z.of_nat (List.length (mem st)) <= Int.max_int ->
  exists x, index (mem st) (left + Z.quot (right - left) 2) = Some x /\
            body target left right st =
              Ok (decision target left right
                    (left + Z.quot (right - left) 2) x, st).
Proof.
  intros H Hr Hn. pose proof int_bounds as [Hmin Hmax].
  pose proof (half_bounds (right - left) ltac:(lia)) as Hq.
  set (mid := left + Z.quot (right - left) 2) in *.
  destruct (index_lt_Some (mem st) mid ltac:(lia)) as [x Hx].
  exists x. split; [exact Hx|].
  unfold body.
  rewrite (bind_step _ _ _ _ _ (midpoint_ok left right st H ltac:(lia))).
  fold mid.
  rewrite (bind_step _ _ _ _ _ (load_ok mid x st Hx)).
  unfold decision. destruct (x =? target); [reflexivity|].
  rewrite (bind_step _ _ _ _ _ (load_ok mid x st Hx)).
  destruct (x <? target).
  - unfold add.
    now rewrite (bind_step _ _ _ _ _ (checked_ok (mid + 1) st ltac:(lia))).
  - unfold sub.
    now rewrite (bind_step _ _ _ _ _ (checked_ok (mid - 1) st ltac:(lia))).
Qed.

(** The body raises no fuel fault of its own. *)
Lemma body_fuel_free (target left right : Z) (st : state) :
  body target left right st <> Stuck OutOfFuel.
Proof.
  unfold body, midpoint, add, sub, div, load. intros H.
  repeat match goal with
  | H : bind _ _ _ = Stuck _ |- _ =>
      apply bind_Stuck in H as [H | (? & ? & ? & H)]
  | H : checked _ _ = Stuck _ |- _ => apply checked_stuck in H; discriminate
  | H : context [index ?m ?i] |- _ => destruct (index m i); try discriminate
  | H : (if ?b then _ else _) _ = Stuck _ |- _ => destruct b
  | H : ret _ _ = Stuck _ |- _ => discriminate
  | H : Ok _ = Stuck _ |- _ => discriminate
  end.
Qed.

(** Each iteration that goes round again leaves a strictly narrower
    interval, inside the old one. *)
Lemma body_narrows (target left right left' right' : Z) (st st' : state) :
  left <= right ->
  body target left right st = Ok (Next left' right', st') ->
  left <= left' /\ right' <= right /\ right' - left' < right - left.
Proof.
  intros Hlr H. apply body_inv in H as (_ & x & _ & H).
  pose proof (half_bounds (right - left) ltac:(lia)) as Hq.
  unfold decision in H.
  destruct (x =? target); [discriminate|].
  destruct (x <? target); injection H as -> ->; lia.
Qed.

(** ** The loop *)

Lemma while_exit (fuel : nat) (target left right : Z) (st : state) :
  right < left -> while fuel target left right st = Ok (-1, st).
Proof.
  intros H. apply Z.leb_gt in H. destruct fuel; simpl; now rewrite H.
Qed.

Lemma while_iter (fuel : nat) (target left right : Z) (st : state) :
  left <= right ->
  while (S fuel) target left right st =
    bind (body target left right)
         (fun c => match c with
                   | Return v => ret v
                   | Next left' right' => while fuel target left' right'
                   end) st.
Proof. intros H. apply Z.leb_le in H. simpl. now rewrite H. Qed.

(** The loop writes nothing: neither the array nor the output. *)
Lemma while_state (fuel : nat) :
  forall target left right v st st',
    while fuel target left right st = Ok (v, st') -> st' = st.
Proof.
  induction fuel as [|fuel IH]; intros target left right v st st' H.
  - simpl in H. destruct (left <=? right); [discriminate|].
    unfold ret in H. now injection H as <- <-.
  - destruct (Z.le_gt_cases left right) as [Hlr|Hlr].
    + rewrite while_iter in H by exact Hlr.
      apply bind_Ok in H as (c & s1 & Hc & H).
      apply body_inv in Hc as (-> & _).
      destruct c as [l' r'|w].
      * now apply IH in H.
      * unfold ret in H. now injection H as <- <-.
    + rewrite while_exit in H by lia. now injection H as <- <-.
Qed.

(** A result obtained with some fuel is obtained with any larger fuel. *)
Lemma while_fuel_mono (fuel : nat) :
  forall fuel' target left right st res,
    (fuel <= fuel')%nat ->
    while fuel target left right st = Ok res ->
    while fuel' target left right st = Ok res.
Proof.
  induction fuel as [|fuel IH]; intros fuel' target left right st res Hf H.
  - simpl in H. destruct (left <=? right) eqn:E; [discriminate|].
    apply Z.leb_gt in E. rewrite while_exit by lia. exact H.
  - destruct fuel' as [|fuel']; [lia|].
    destruct (Z.le_gt_cases left right) as [Hlr|Hlr].
    + rewrite while_iter in * by exact Hlr.
      destruct res as [v st'].
      apply bind_Ok in H as (c & s1 & Hc & H).
      rewrite (bind_step _ _ _ _ _ Hc).
      destruct c as [l' r'|w]; [|exact H].
      apply IH; [lia|exact H].
    + rewrite while_exit in * by lia. exact H.
Qed.

(** The interval width bounds the number of iterations: with that much
    fuel the loop never runs out of it, whatever the array holds. *)
Lemma while_enough_fuel (fuel : nat) :
  forall target left right st,
    (Z.to_nat (right - left + 1) <= fuel)%nat ->
    while fuel target left right st <> Stuck OutOfFuel.
Proof.
  induction fuel as [|fuel IH]; intros target left right st Hf H.
  - rewrite while_exit in H by lia. discriminate.
  - destruct (Z.le_gt_cases left right) as [Hlr|Hlr].
    + rewrite while_iter in H by exact Hlr.
      apply bind_Stuck in H as [H | (c & s1 & Hc & H)].
      * now apply body_fuel_free in H.
      * destruct c as [l' r'|w]; [|discriminate].
        pose proof (body_narrows _ _ _ _ _ _ _ Hlr Hc) as (_ & _ & Hw).
        apply IH in H; [exact H|lia].
    + rewrite while_exit in H by lia. discriminate.
Qed.

(** Each iteration that goes round again at least halves the number of
    indices left, so logarithmically many iterations are enough. *)
Lemma body_halves (target left right left' right' : Z) (st st' : state) :
  left <= right ->
  body target left right st = Ok (Next left' right', st') ->
  right' - left' + 1 <= (right - left + 1) / 2.
Proof.
  intros Hlr H. apply body_inv in H as (_ & x & _ & H).
  unfold decision in H. rewrite Z.quot_div_nonneg in H by lia.
  destruct (x =? target); [discriminate|].
  destruct (x <? target); injection H as -> ->.
  - pose proof (Z.div_mod (right - left) 2 ltac:(lia)).
    pose proof (Z.mod_pos_bound (right - left) 2 ltac:(lia)).
    apply Z.div_le_lower_bound; lia.
  - apply Z.div_le_lower_bound; [lia|].
    pose proof (Z.mul_div_le (right - left) 2 ltac:(lia)). lia.
Qed.

Lemma while_log_fuel (fuel : nat) :
  forall target left right st,
    right - left + 1 < 2 ^ Z.of_nat fuel ->
    while fuel target left right st <> Stuck OutOfFuel.
Proof.
  induction fuel as [|fuel IH]; intros target left right st Hf H.
  - rewrite while_exit in H by (simpl in Hf; lia). discriminate.
  - destruct (Z.le_gt_cases left right) as [Hlr|Hlr].
    + rewrite while_iter in H by exact Hlr.
      apply bind_Stuck in H as [H | (c & s1 & Hc & H)].
      * now apply body_fuel_free in H.
      * destruct c as [l' r'|w]; [|discriminate].
        pose proof (body_halves _ _ _ _ _ _ _ Hlr Hc) as Hw.
        apply IH in H; [exact H|].
        rewrite Nat2Z.inj_succ, Z.pow_succ_r in Hf by lia.
        assert ((right - left + 1) / 2 < 2 ^ Z.of_nat fuel)
          by (apply Z.div_lt_upper_bound; lia).
        lia.
    + rewrite while_exit in H by lia. discriminate.
Qed.

(** *** The loop rule

    An invariant [Inv] on the bounds that every iteration re-establishes,
    and a postcondition [Post] that every [return] of the body and the exit
    of the loop establish. *)
Section WhileRule.

Variables (target : Z) (st : state).
Variable Inv : Z -> Z -> Prop.
Variable Post : Z -> Prop.

Hypothesis body_keeps :
  forall left right,
    Inv left right -> left <= right ->
    exists c, body target left right st = Ok (c, st) /\
              match c with
              | Return v => Post v
              | Next left' right' => Inv left' right'
              end.

Hypothesis exit_gives :
  forall left right, Inv left right -> right < left -> Post (-1).

Lemma while_rule (fuel : nat) :
  forall left right,
    Inv left right ->
    (Z.to_nat (right - left + 1) <= fuel)%nat ->
    exists v, while fuel target left right st = Ok (v, st) /\ Post v.
Proof.
  induction fuel as [|fuel IH]; intros left right HI Hf.
  - exists (-1). rewrite while_exit by lia. split; [reflexivity|].
    apply (exit_gives left right HI). lia.
  - destruct (Z.le_gt_cases left right) as [Hlr|Hlr].
    + destruct (body_keeps left right HI Hlr) as (c & Hc & HP).
      rewrite while_iter by exact Hlr.
      rewrite (bind_step _ _ _ _ _ Hc).
      destruct c as [l' r'|w].
      * apply IH; [exact HP|].
        pose proof (body_narrows _ _ _ _ _ _ _ Hlr Hc). lia.
      * exists w. split; [reflexivity|exact HP].
    + exists (-1). rewrite while_exit by lia. split; [reflexivity|].
      apply (exit_gives left right HI). lia.
Qed.

End WhileRule.

Lemma read_only_ret {A : Type} (a : A) : read_only (ret a).
Proof. now exists (fun _ => Ok a). Qed.

Lemma read_only_stuck {A : Type} (e : fault) : read_only (@stuck A e).
Proof. now exists (fun _ => Stuck e). Qed.

Lemma read_only_bind {A B : Type} (c : M A) (k : A -> M B) :
  read_only c -> (forall a, read_only (k a)) -> read_only (bind c k).
Proof.
  intros [f Hf] Hk.
  exists (fun m => match f m with
                   | Ok a => match k a (mkState m EmptyString) with
                             | Ok (b, _) => Ok b
                             | Stuck e => Stuck e
                             end
                   | Stuck e => Stuck e
                   end).
  intros st. unfold bind, lift. rewrite Hf. unfold lift.
  destruct (f (mem st)) as [a|e]; [|reflexivity].
  destruct (Hk a) as [g Hg]. rewrite !Hg. unfold lift. simpl.
  now destruct (g (mem st)).
Qed.

Lemma read_only_checked (z : Z) : read_only (checked z).
Proof.
  unfold checked. destruct (Int.fits z);
    [apply read_only_ret | apply read_only_stuck].
Qed.

Lemma read_only_load (i : Z) : read_only (load i).
Proof.
  exists (fun m => match index m i with
                   | Some x => Ok x
                   | None => Stuck OutOfBounds
                   end).
  intros st. unfold load, lift. now destruct (index (mem st) i).
Qed.

Lemma read_only_body (target left right : Z) :
  read_only (body target left right).
Proof.
  unfold body, midpoint, add, sub, div.
  repeat first
    [ apply read_only_bind; [|intros ?]
    | apply read_only_checked
    | apply read_only_load
    | apply read_only_ret
    | match goal with |- read_only (if ?b then _ else _) => destruct b end ].
Qed.

Lemma read_only_while (fuel : nat) :
  forall target left right, read_only (while fuel target left right).
Proof.
  induction fuel as [|fuel IH]; intros target left right; simpl;
    destruct (left <=? right);
    try apply read_only_ret; try apply read_only_stuck.
  apply read_only_bind; [apply read_only_body|].
  intros [l' r'|v]; [apply IH|apply read_only_ret].
Qed.

Lemma read_only_binary_search_fuel (fuel : nat) (n target : Z) :
  read_only (binary_search_fuel fuel n target).
Proof.
  unfold binary_search_fuel, sub.
  apply read_only_bind; [apply read_only_checked|].
  intros right. apply read_only_while.
Qed.

(** ** The function *)

Lemma binary_search_fuel_unfold (fuel : nat) (n target : Z) (st : state) :
  0 <= n <= Int.max_int ->
  binary_search_fuel fuel n target st = while fuel target 0 (n - 1) st.
Proof.
  intros H. pose proof int_bounds as [Hmin Hmax].
  unfold binary_search_fuel, sub.
  now rewrite (bind_step _ _ _ _ _ (checked_ok (n - 1) st ltac:(lia))).
Qed.

(** Whatever the array holds, the search returns, and what it returns is
    the absence marker or an index at which the target is stored. *)
Lemma while_any (fuel : nat) (target left right : Z) (st : state) :
  arr_len st <= Int.max_int ->
  0 <= left -> right < arr_len st ->
  (Z.to_nat (right - left + 1) <= fuel)%nat ->
  exists v, while fuel target left right st = Ok (v, st) /\
            (v = -1 \/ index (mem st) v = Some target).
Proof.
  intros Hn Hl Hr Hf.
  apply (while_rule target st (fun l r => 0 <= l /\ r < arr_len st));
    [| auto | auto | exact Hf].
  intros l r [Hl' Hr'] Hlr.
  destruct (body_ok target l r st ltac:(lia) Hr' Hn) as (x & Hx & Hb).
  pose proof (half_bounds (r - l) ltac:(lia)) as Hq.
  eexists. split; [exact Hb|].
  unfold decision. destruct (x =? target) eqn:E.
  - apply Z.eqb_eq in E. subst x. now right.
  - destruct (x <? target); lia.
Qed.

(** On a sorted array the absence marker is returned only when the target
    is stored nowhere. *)
Lemma while_sorted (fuel : nat) (target left right : Z) (st : state) :
  Sorted Z.le (mem st) ->
  arr_len st <= Int.max_int ->
  0 <= left -> right < arr_len st ->
  (forall i x, index (mem st) i = Some x -> i < left -> x < target) ->
  (forall i x, index (mem st) i = Some x -> right < i -> target < x) ->
  (Z.to_nat (right - left + 1) <= fuel)%nat ->
  exists v, while fuel target left right st = Ok (v, st) /\
            ((v = -1 /\ ~ In target (mem st)) \/
             index (mem st) v = Some target).
Proof.
  intros HS Hn Hl Hr Hlo Hhi Hf.
  apply (while_rule target st
           (fun l r =>
              0 <= l /\ r < arr_len st /\
              (forall i x, index (mem st) i = Some x -> i < l -> x < target) /\
              (forall i x, index (mem st) i = Some x -> r < i -> target < x)));
    [| | auto | exact Hf].
  - intros l r (Hl' & Hr' & Hlo' & Hhi') Hlr.
    destruct (body_ok target l r st ltac:(lia) Hr' Hn) as (x & Hx & Hb).
    pose proof (half_bounds (r - l) ltac:(lia)) as Hq.
    eexists. split; [exact Hb|].
    unfold decision. destruct (x =? target) eqn:E.
    + apply Z.eqb_eq in E. subst x. now right.
    + apply Z.eqb_neq in E. destruct (x <? target) eqn:L.
      * apply Z.ltb_lt in L. repeat split; try lia; [|exact Hhi'].
        intros i y Hy Hi.
        pose proof (Sorted_index _ HS i _ y x Hy Hx ltac:(lia)). lia.
      * apply Z.ltb_ge in L. repeat split; try lia; [exact Hlo'|].
        intros i y Hy Hi.
        pose proof (Sorted_index _ HS _ i x y Hx Hy ltac:(lia)). lia.
  - intros l r (_ & _ & Hlo' & Hhi') Hlr. left. split; [reflexivity|].
    intros HIn. apply In_index in HIn as [i Hi].
    destruct (Z.lt_ge_cases i l) as [H|H].
    + specialize (Hlo' i target Hi H). lia.
    + specialize (Hhi' i target Hi ltac:(lia)). lia.
Qed.

Lemma binary_search_fuel_any (fuel : nat) (target : Z) (st : state) :
  arr_len st <= Int.max_int ->
  (Z.to_nat (arr_len st) <= fuel)%nat ->
  exists v, binary_search_fuel fuel (arr_len st) target st = Ok (v, st) /\
            (v = -1 \/ index (mem st) v = Some target).
Proof.
  intros Hn Hf. assert (0 <= arr_len st) by (unfold arr_len; lia).
  rewrite binary_search_fuel_unfold by lia.
  apply while_any; try lia.
Qed.

Lemma binary_search_fuel_sorted (fuel : nat) (target : Z) (st : state) :
  Sorted Z.le (mem st) ->
  arr_len st <= Int.max_int ->
  (Z.to_nat (arr_len st) <= fuel)%nat ->
  exists v, binary_search_fuel fuel (arr_len st) target st = Ok (v, st) /\
            ((v = -1 /\ ~ In target (mem st)) \/
             index (mem st) v = Some target).
Proof.
  intros HS Hn Hf. assert (0 <= arr_len st) by (unfold arr_len; lia).
  rewrite binary_search_fuel_unfold by lia.
  apply while_sorted; try lia; try assumption.
  - intros i x Hi. apply index_Some_lt in Hi. lia.
  - intros i x Hi. apply index_Some_lt in Hi. unfold arr_len. lia.
Qed.

(** With the bounds inside the array, the only fault a run can end in is
    the lack of fuel. *)
Lemma while_fault_is_fuel (fuel : nat) :
  forall target left right st e,
    arr_len st <= Int.max_int ->
    0 <= left -> right < arr_len st ->
    while fuel target left right st = Stuck e -> e = OutOfFuel.
Proof.
  induction fuel as [|fuel IH]; intros target left right st e Hn Hl Hr H.
  - simpl in H. destruct (left <=? right); [|discriminate].
    unfold stuck in H. now injection H as <-.
  - destruct (Z.le_gt_cases left right) as [Hlr|Hlr].
    + rewrite while_iter in H by exact Hlr.
      destruct (body_ok target left right st ltac:(lia) Hr Hn)
        as (x & _ & Hb).
      rewrite (bind_step _ _ _ _ _ Hb) in H.
      pose proof (half_bounds (right - left) ltac:(lia)) as Hq.
      unfold decision in H.
      destruct (x =? target); [discriminate|].
      destruct (x <? target); apply IH in H; auto; lia.
    + rewrite while_exit in H by lia. discriminate.
Qed.

(** Logarithmically many iterations give the result of the call. *)
Lemma binary_search_logarithmic (fuel : nat) (target : Z) (st : state) :
  arr_len st <= Int.max_int ->
  arr_len st < 2 ^ Z.of_nat fuel ->
  binary_search_fuel fuel (arr_len st) target st
    = binary_search (arr_len st) target st.
Proof.
  intros Hn Hf. assert (0 <= arr_len st) by (unfold arr_len; lia).
  destruct (binary_search_fuel_any (Z.to_nat (arr_len st)) target st Hn
              (Nat.le_refl _)) as (r & Hr & _).
  unfold binary_search. rewrite Hr.
  rewrite binary_search_fuel_unfold in * by lia.
  destruct (while fuel target 0 (arr_len st - 1) st) as [res|e] eqn:E.
  - pose proof (while_fuel_mono _ _ _ _ _ _ _
                  (Nat.le_max_l fuel (Z.to_nat (arr_len st))) E) as E1.
    pose proof (while_fuel_mono _ _ _ _ _ _ _
                  (Nat.le_max_r fuel (Z.to_nat (arr_len st))) Hr) as E2.
    congruence.
  - exfalso.
    assert (e = OutOfFuel) as ->
      by (apply (while_fault_is_fuel _ _ _ _ _ _ Hn (Z.le_refl 0)) in E;
          [exact E | lia]).
    revert E. apply while_log_fuel. lia.
Qed.

(** The fuel [binary_search] allows is never used up, for any arguments
    and any array. *)
Lemma binary_search_fuel_free (n target : Z) (st : state) :
  binary_search n target st <> Stuck OutOfFuel.
Proof.
  unfold binary_search, binary_search_fuel, sub. intros H.
  apply bind_Stuck in H as [H | (r & s1 & Hr & H)].
  - apply checked_stuck in H. discriminate.
  - apply checked_inv in Hr as (-> & -> & _).
    apply while_enough_fuel in H; [exact H|lia].
Qed.

(** * The claims *)

(** C1: in a sorted sequence, the search for the element stored at any
    index [i] returns an index [j] at which that same value is stored. *)
Theorem binary_search_finds (xs : list Z) (o : string) (i x : Z) :
  Sorted Z.le xs ->
  Z.of_nat (List.length xs) <= Int.max_int ->
  index xs i = Some x ->
  exists j,
    binary_search (Z.of_nat (List.length xs)) x (mkState xs o)
      = Ok (j, mkState xs o) /\
    index xs j = Some x.
Proof.
  intros HS Hn Hi.
  destruct (binary_search_fuel_sorted
              (Z.to_nat (Z.of_nat (List.length xs))) x (mkState xs o)
              HS Hn (Nat.le_refl _)) as (v & Hv & [[_ Habs] | Hfound]).
  - exfalso. apply Habs. exact (index_In _ _ _ Hi).
  - exists v. split; [exact Hv | exact Hfound].
Qed.

Lemma binary_search_finds_witness :
  Sorted Z.le [1; 3; 3; 8] /\
  Z.of_nat (List.length [1; 3; 3; 8]) <= Int.max_int /\
  index [1; 3; 3; 8] 2 = Some 3 /\
  exists j,
    binary_search 4 3 (mkState [1; 3; 3; 8] EmptyString)
      = Ok (j, mkState [1; 3; 3; 8] EmptyString) /\
    index [1; 3; 3; 8] j = Some 3.
Proof.
  assert (HS : Sorted Z.le [1; 3; 3; 8]) by (repeat constructor; lia).
  assert (Hn : Z.of_nat (List.length [1; 3; 3; 8]) <= Int.max_int)
    by int_range.
  refine (conj HS (conj Hn (conj eq_refl _))).
  exact (binary_search_finds [1; 3; 3; 8] EmptyString 2 3 HS Hn eq_refl).
Defined.

(** C2: in a sorted sequence, the search for a value that does not occur
    returns the absence marker -1. *)
Theorem binary_search_absent (xs : list Z) (o : string) (v : Z) :
  Sorted Z.le xs ->
  Z.of_nat (List.length xs) <= Int.max_int ->
  ~ In v xs ->
  binary_search (Z.of_nat (List.length xs)) v (mkState xs o)
    = Ok (-1, mkState xs o).
Proof.
  intros HS Hn Hv.
  destruct (binary_search_fuel_sorted
              (Z.to_nat (Z.of_nat (List.length xs))) v (mkState xs o)
              HS Hn (Nat.le_refl _)) as (r & Hr & [[-> _] | Hfound]).
  - exact Hr.
  - exfalso. apply Hv. exact (index_In _ _ _ Hfound).
Qed.

Lemma binary_search_absent_witness :
  Sorted Z.le [2; 4; 6] /\
  Z.of_nat (List.length [2; 4; 6]) <= Int.max_int /\
  ~ In 5 [2; 4; 6] /\
  binary_search 3 5 (mkState [2; 4; 6] EmptyString)
    = Ok (-1, mkState [2; 4; 6] EmptyString).
Proof.
  assert (HS : Sorted Z.le [2; 4; 6]) by (repeat constructor; lia).
  assert (Hn : Z.of_nat (List.length [2; 4; 6]) <= Int.max_int)
    by int_range.
  assert (Hv : ~ In 5 [2; 4; 6]) by (simpl; lia).
  refine (conj HS (conj Hn (conj Hv _))).
  exact (binary_search_absent [2; 4; 6] EmptyString 5 HS Hn Hv).
Defined.

(** C3: on the empty sequence (length 0) the bounds are [left = 0] and
    [right = -1], the loop condition is false at once, and the absence
    marker -1 is returned, even when no iteration at all is allowed
    (fuel 0). *)
Theorem binary_search_empty (v : Z) (o : string) :
  sub 0 1 (mkState [] o) = Ok (-1, mkState [] o) /\
  (0 <=? -1) = false /\
  while 0 v 0 (-1) (mkState [] o) = Ok (-1, mkState [] o) /\
  binary_search 0 v (mkState [] o) = Ok (-1, mkState [] o) /\
  forall fuel,
    binary_search_fuel fuel 0 v (mkState [] o) = Ok (-1, mkState [] o).
Proof.
  repeat split; try reflexivity.
  intros fuel. rewrite binary_search_fuel_unfold by int_range.
  apply while_exit. lia.
Qed.

(** C4: with [0 <= low <= high] below the length [n] of a sequence (an
    [int], so at most [max_int]), [low + (high - low) / 2] is computed
    without overflow, the division truncating toward zero; the value lies
    in [low..high] and is the exact midpoint [(low + high) / 2].  It is
    the index every iteration of the loop reads.  The naive
    [(low + high) / 2] does overflow for some such bounds. *)
Theorem midpoint_no_overflow (low high n : Z) (st : state) :
  0 <= low <= high -> high < n -> n <= Int.max_int ->
  let mid := low + Z.quot (high - low) 2 in
  midpoint low high st = Ok (mid, st) /\
  Int.fits mid = true /\
  low <= mid <= high /\
  mid = (low + high) / 2 /\
  (forall target c st',
     body target low high st = Ok (c, st') ->
     exists x, index (mem st) mid = Some x /\
               c = decision target low high mid x) /\
  (exists low' high',
     0 <= low' <= high' /\ high' < Int.max_int /\
     naive_midpoint low' high' st = Stuck SignedOverflow).
Proof.
  intros H Hh Hn mid.
  pose proof (half_bounds (high - low) ltac:(lia)) as Hq.
  pose proof int_bounds as [Hmin Hmax].
  split; [apply midpoint_ok; lia|].
  split; [apply fits_iff; subst mid; lia|].
  split; [subst mid; lia|].
  split.
  - subst mid. rewrite Z.quot_div_nonneg by lia.
    replace (low + high) with (low * 2 + (high - low)) by lia.
    rewrite Z.div_add_l by lia. reflexivity.
  - split.
    + intros target c st' Hb. apply body_inv in Hb as (_ & Hb). exact Hb.
    + exists 1073741824, 1073741824.
      split; [lia|]. split; [lia|]. reflexivity.
Qed.

Lemma midpoint_no_overflow_witness :
  0 <= 2147483645 <= 2147483646 /\ 2147483646 < 2147483647 /\
  2147483647 <= Int.max_int /\
  midpoint 2147483645 2147483646 (mkState [] EmptyString)
    = Ok (2147483645, mkState [] EmptyString).
Proof.
  assert (H1 : 0 <= 2147483645 <= 2147483646) by lia.
  assert (H2 : 2147483646 < 2147483647) by lia.
  assert (H3 : 2147483647 <= Int.max_int) by int_range.
  refine (conj H1 (conj H2 (conj H3 _))).
  exact (proj1 (midpoint_no_overflow 2147483645 2147483646 2147483647
                  (mkState [] EmptyString) H1 H2 H3)).
Defined.

(** C5: the search terminates on every sequence, sorted or not, and for
    every target: each iteration that goes round again strictly decreases
    [right - left], and with the fuel the length of the sequence gives, or
    any larger one, the call returns a result (it does not run out of
    fuel, and it does not fault). *)
Theorem binary_search_terminates (xs : list Z) (o : string) (target : Z) :
  Z.of_nat (List.length xs) <= Int.max_int ->
  let st := mkState xs o in
  let n := Z.of_nat (List.length xs) in
  (forall left right left' right' st',
     left <= right ->
     body target left right st = Ok (Next left' right', st') ->
     right' - left' < right - left) /\
  exists r,
    binary_search n target st = Ok (r, st) /\
    forall fuel, (Z.to_nat n <= fuel)%nat ->
                 binary_search_fuel fuel n target st = Ok (r, st).
Proof.
  intros Hn st n. split.
  - intros left right left' right' st' Hlr Hb.
    now apply body_narrows in Hb.
  - destruct (binary_search_fuel_any (Z.to_nat n) target st Hn
                (Nat.le_refl _)) as (r & Hr & _).
    exists r. split; [exact Hr|].
    intros fuel Hf.
    change (arr_len st) with n in Hr.
    rewrite binary_search_fuel_unfold in * by (subst n; lia).
    exact (while_fuel_mono _ _ _ _ _ _ _ Hf Hr).
Qed.

Lemma binary_search_terminates_witness :
  Z.of_nat (List.length [9; 2; 7; 2; 5]) <= Int.max_int /\
  exists r,
    binary_search 5 7 (mkState [9; 2; 7; 2; 5] EmptyString)
      = Ok (r, mkState [9; 2; 7; 2; 5] EmptyString) /\
    forall fuel, (5 <= fuel)%nat ->
      binary_search_fuel fuel 5 7 (mkState [9; 2; 7; 2; 5] EmptyString)
        = Ok (r, mkState [9; 2; 7; 2; 5] EmptyString).
Proof.
  assert (Hn : Z.of_nat (List.length [9; 2; 7; 2; 5]) <= Int.max_int)
    by int_range.
  split; [exact Hn|].
  exact (proj2 (binary_search_terminates [9; 2; 7; 2; 5] EmptyString 7 Hn)).
Defined.

(** C6: [main] writes the two lines [3] and [-1], each ended by a newline,
    after whatever was on standard output, and returns 0, from every
    initial state. *)
Theorem main_output (st : state) :
  main st =
    Ok (0, mkState demo_arr
             (out st ++ "3" ++ newline ++ "-1" ++ newline)).
Proof.
  destruct st as [m o]. unfold main.
  cbv -[String.append newline].
  rewrite append_assoc. reflexivity.
Qed.

(** C7: on [1,3,5,7,9,11,13] the search for the first element, 1,
    returns index 0 and the search for the last element, 13, returns
    index 6. *)
Theorem binary_search_boundaries (o : string) :
  binary_search 7 1 (mkState demo_arr o) = Ok (0, mkState demo_arr o) /\
  binary_search 7 13 (mkState demo_arr o) = Ok (6, mkState demo_arr o).
Proof. split; reflexivity. Qed.

(** C8: on a sorted sequence the search returns, for every target, either
    an index inside the sequence or -1, and -1 is no index of the
    sequence: exactly one of the two holds. *)
Theorem binary_search_result_range (xs : list Z) (o : string) (target : Z) :
  Sorted Z.le xs ->
  Z.of_nat (List.length xs) <= Int.max_int ->
  exists r,
    binary_search (Z.of_nat (List.length xs)) target (mkState xs o)
      = Ok (r, mkState xs o) /\
    ((r = -1 /\ ~ 0 <= r < Z.of_nat (List.length xs)) \/
     (0 <= r < Z.of_nat (List.length xs) /\ r <> -1)).
Proof.
  intros _ Hn.
  destruct (binary_search_fuel_any
              (Z.to_nat (Z.of_nat (List.length xs))) target (mkState xs o)
              Hn (Nat.le_refl _)) as (r & Hr & [-> | Hfound]).
  - exists (-1). split; [exact Hr|]. left. lia.
  - exists r. split; [exact Hr|]. right.
    apply index_Some_lt in Hfound. simpl in Hfound. lia.
Qed.

Lemma binary_search_result_range_witness :
  Sorted Z.le [1; 1; 4] /\
  Z.of_nat (List.length [1; 1; 4]) <= Int.max_int /\
  exists r,
    binary_search 3 1 (mkState [1; 1; 4] EmptyString)
      = Ok (r, mkState [1; 1; 4] EmptyString) /\
    ((r = -1 /\ ~ 0 <= r < 3) \/ (0 <= r < 3 /\ r <> -1)).
Proof.
  assert (HS : Sorted Z.le [1; 1; 4]) by (repeat constructor; lia).
  assert (Hn : Z.of_nat (List.length [1; 1; 4]) <= Int.max_int)
    by int_range.
  refine (conj HS (conj Hn _)).
  exact (binary_search_result_range [1; 1; 4] EmptyString 1 HS Hn).
Defined.

(** C9: two calls with the same array contents, the same [n] and the same
    target have the same outcome, whatever else the states they run in
    hold, and each call hands back its state as it was given: the array is
    not written and nothing is printed. *)
Theorem binary_search_pure (n target : Z) (sa sb : state) :
  mem sa = mem sb ->
  match binary_search n target sa, binary_search n target sb with
  | Ok (ra, sa'), Ok (rb, sb') => ra = rb /\ sa' = sa /\ sb' = sb
  | Stuck fa, Stuck fb => fa = fb
  | _, _ => False
  end.
Proof.
  intros Hm.
  destruct (read_only_binary_search_fuel (Z.to_nat n) n target) as [f Hf].
  unfold binary_search. rewrite !Hf. unfold lift. rewrite Hm.
  destruct (f (mem sb)); auto.
Qed.

Lemma binary_search_pure_witness :
  mem (mkState [1; 3; 5] "abc") = mem (mkState [1; 3; 5] EmptyString) /\
  match binary_search 3 5 (mkState [1; 3; 5] "abc"),
        binary_search 3 5 (mkState [1; 3; 5] EmptyString) with
  | Ok (ra, sa'), Ok (rb, sb') =>
      ra = rb /\ sa' = mkState [1; 3; 5] "abc" /\
      sb' = mkState [1; 3; 5] EmptyString
  | Stuck fa, Stuck fb => fa = fb
  | _, _ => False
  end.
Proof.
  split; [reflexivity|].
  exact (binary_search_pure 3 5 (mkState [1; 3; 5] "abc")
           (mkState [1; 3; 5] EmptyString) eq_refl).
Defined.

(** C10: when [n] is the length of the array, sorted or not, every time
    the loop body is about to run the bounds satisfy
    [0 <= left <= mid <= right <= n - 1], so the read [arr[mid]] succeeds;
    and no run of the search, with any bound on the iterations, ends in
    the out-of-bounds fault (nor in an overflow). *)
Theorem binary_search_in_bounds (xs : list Z) (o : string) (target : Z) :
  Z.of_nat (List.length xs) <= Int.max_int ->
  let st := mkState xs o in
  let n := Z.of_nat (List.length xs) in
  (forall left right,
     reached n target st left right ->
     left <= right ->
     let mid := left + Z.quot (right - left) 2 in
     0 <= left <= mid /\ mid <= right <= n - 1 /\
     0 <= mid < n /\
     midpoint left right st = Ok (mid, st) /\
     exists x, load mid st = Ok (x, st)) /\
  (forall fuel,
     binary_search_fuel fuel n target st <> Stuck OutOfBounds /\
     binary_search_fuel fuel n target st <> Stuck SignedOverflow).
Proof.
  intros Hn st n.
  pose proof int_bounds as [Hmin Hmax].
  assert (Hinv : forall left right,
             reached n target st left right ->
             0 <= left /\ right <= n - 1).
  { intros left right HR.
    induction HR as [right Hs | left right left' right' st' HR IH Hlr Hb].
    - apply checked_inv in Hs as (-> & _). lia.
    - pose proof (body_narrows _ _ _ _ _ _ _ Hlr Hb). lia. }
  split.
  - intros left right HR Hlr mid.
    destruct (Hinv _ _ HR) as [Hl Hr].
    pose proof (half_bounds (right - left) ltac:(lia)) as Hq.
    assert (Hmid : 0 <= mid < n) by (subst mid; lia).
    repeat (split; [subst mid; lia|]).
    split; [apply midpoint_ok; lia|].
    destruct (index_lt_Some xs mid Hmid) as [x Hx].
    exists x. now apply load_ok.
  - intros fuel.
    rewrite binary_search_fuel_unfold by (subst n; lia).
    assert (Hgen : forall e,
               while fuel target 0 (n - 1) st = Stuck e -> e = OutOfFuel).
    { intros e. apply while_fault_is_fuel; [exact Hn | lia |].
      unfold arr_len. simpl. subst n. lia. }
    split; intros H; apply Hgen in H; discriminate.
Qed.

Lemma binary_search_in_bounds_witness :
  Z.of_nat (List.length [6; 1; 6]) <= Int.max_int /\
  forall fuel,
    binary_search_fuel fuel 3 2 (mkState [6; 1; 6] EmptyString)
      <> Stuck OutOfBounds /\
    binary_search_fuel fuel 3 2 (mkState [6; 1; 6] EmptyString)
      <> Stuck SignedOverflow.
Proof.
  assert (Hn : Z.of_nat (List.length [6; 1; 6]) <= Int.max_int)
    by int_range.
  split; [exact Hn|].
  exact (proj2 (binary_search_in_bounds [6; 1; 6] EmptyString 2 Hn)).
Defined.

(** * Further properties of [binary_search]

    The length [n] is an argument of its own, which the function does not
    compare with the array: the properties below say what the code does
    for every [n], what a returned index means on any array, and how much
    of the array a call depends on. *)

(** ** One iteration, whatever the array length *)

(** With [0 <= left <= right < max_int] nothing overflows, so what the
    body does is decided by the read at [mid] alone. *)
Lemma body_by_read (target left right : Z) (st : state) :
  0 <= left <= right -> right < Int.max_int ->
  body target left right st =
    match index (mem st) (left + Z.quot (right - left) 2) with
    | Some x =>
        Ok (decision target left right
              (left + Z.quot (right - left) 2) x, st)
    | None => Stuck OutOfBounds
    end.
Proof.
  intros H Hr. pose proof int_bounds as [Hmin Hmax].
  pose proof (half_bounds (right - left) ltac:(lia)) as Hq.
  set (mid := left + Z.quot (right - left) 2) in *.
  unfold body.
  rewrite (bind_step _ _ _ _ _ (midpoint_ok left right st H ltac:(lia))).
  fold mid. unfold bind at 1. unfold load at 1.
  destruct (index (mem st) mid) as [x|] eqn:Hx; [|reflexivity].
  unfold decision. destruct (x =? target); [reflexivity|].
  rewrite (bind_step _ _ _ _ _ (load_ok mid x st Hx)).
  destruct (x <? target).
  - unfold add.
    now rewrite (bind_step _ _ _ _ _ (checked_ok (mid + 1) st ltac:(lia))).
  - unfold sub.
    now rewrite (bind_step _ _ _ _ _ (checked_ok (mid - 1) st ltac:(lia))).
Qed.

(** ** What a result means *)

(** A value the loop returns is -1 or an index between the bounds at which
    the target is stored. *)
Lemma while_hit (fuel : nat) :
  forall target left right st v st',
    while fuel target left right st = Ok (v, st') ->
    v = -1 \/ (left <= v <= right /\ index (mem st) v = Some target).
Proof.
  induction fuel as [|fuel IH]; intros target left right st v st' H.
  - simpl in H. destruct (left <=? right); [discriminate|].
    unfold ret in H. injection H as <- <-. now left.
  - destruct (Z.le_gt_cases left right) as [Hlr|Hlr].
    + rewrite while_iter in H by exact Hlr.
      apply bind_Ok in H as (c & s1 & Hc & H).
      pose proof (half_bounds (right - left) ltac:(lia)) as Hq.
      destruct c as [l' r'|w].
      * pose proof (body_narrows _ _ _ _ _ _ _ Hlr Hc) as (Hl & Hr & _).
        apply body_inv in Hc as (-> & _).
        apply IH in H as [-> | [Hv Hi]]; [now left|right].
        split; [lia | exact Hi].
      * apply body_inv in Hc as (-> & x & Hx & Hd).
        unfold ret in H. injection H as <- <-.
        unfold decision in Hd. destruct (x =? target) eqn:E.
        -- injection Hd as ->. apply Z.eqb_eq in E. subst x.
           right. split; [lia | exact Hx].
        -- destruct (x <? target); discriminate.
    + rewrite while_exit in H by lia. injection H as <- <-. now left.
Qed.

(** ** Overflow *)

Lemma while_no_overflow (fuel : nat) :
  forall target left right st,
    0 <= left -> right < Int.max_int ->
    while fuel target left right st <> Stuck SignedOverflow.
Proof.
  induction fuel as [|fuel IH]; intros target left right st Hl Hr H.
  - simpl in H. destruct (left <=? right); discriminate.
  - destruct (Z.le_gt_cases left right) as [Hlr|Hlr].
    + rewrite while_iter in H by exact Hlr.
      pose proof (half_bounds (right - left) ltac:(lia)) as Hq.
      unfold bind in H.
      rewrite body_by_read in H by lia.
      destruct (index (mem st) (left + Z.quot (right - left) 2)) as [x|];
        [|discriminate].
      unfold decision in H.
      destruct (x =? target); [discriminate|].
      destruct (x <? target); apply IH in H; auto; lia.
    + rewrite while_exit in H by lia. discriminate.
Qed.

(** ** Dependence on the array *)

(** Two states whose arrays agree on the indices the bounds allow give the
    same run of the loop. *)
Lemma while_agree (fuel : nat) :
  forall target left right sa sb,
    0 <= left -> right < Int.max_int ->
    (forall i, 0 <= i <= right -> index (mem sa) i = index (mem sb) i) ->
    match while fuel target left right sa,
          while fuel target left right sb with
    | Ok (ra, sa'), Ok (rb, sb') => ra = rb /\ sa' = sa /\ sb' = sb
    | Stuck fa, Stuck fb => fa = fb
    | _, _ => False
    end.
Proof.
  induction fuel as [|fuel IH]; intros target left right sa sb Hl Hr Hag.
  - simpl. destruct (left <=? right); simpl; auto.
  - destruct (Z.le_gt_cases left right) as [Hlr|Hlr].
    + rewrite !while_iter by exact Hlr.
      pose proof (half_bounds (right - left) ltac:(lia)) as Hq.
      unfold bind. rewrite !body_by_read by lia.
      rewrite (Hag (left + Z.quot (right - left) 2)) by lia.
      destruct (index (mem sb) (left + Z.quot (right - left) 2)) as [x|];
        [|reflexivity].
      unfold decision. destruct (x =? target); [simpl; auto|].
      destruct (x <? target); apply IH; try lia;
        intros i Hi; apply Hag; lia.
    + rewrite !while_exit by lia. auto.
Qed.

Lemma binary_search_fuel_agree (fuel : nat) (n target : Z) (sa sb : state) :
  Int.fits n = true ->
  (forall i, 0 <= i < n -> index (mem sa) i = index (mem sb) i) ->
  match binary_search_fuel fuel n target sa,
        binary_search_fuel fuel n target sb with
  | Ok (ra, sa'), Ok (rb, sb') => ra = rb /\ sa' = sa /\ sb' = sb
  | Stuck fa, Stuck fb => fa = fb
  | _, _ => False
  end.
Proof.
  intros Hn Hag. apply fits_iff in Hn.
  unfold binary_search_fuel, sub, bind, checked.
  destruct (Int.fits (n - 1)); simpl; [|reflexivity].
  apply while_agree; try lia. intros i Hi. apply Hag. lia.
Qed.

Lemma index_firstn (xs : list Z) (n i : Z) :
  0 <= i < n -> index (firstn (Z.to_nat n) xs) i = index xs i.
Proof.
  intros H. unfold index. destruct (i <? 0); [reflexivity|].
  rewrite nth_error_firstn.
  destruct (Nat.ltb_spec (Z.to_nat i) (Z.to_nat n)); [reflexivity|lia].
Qed.

(** ** Strictly increasing arrays *)

Lemma Sorted_lt_le (xs : list Z) : Sorted Z.lt xs -> Sorted Z.le xs.
Proof.
  induction 1 as [|a l HS IH Hd]; constructor; [exact IH|].
  destruct Hd; constructor. lia.
Qed.

Lemma Sorted_lt_index (xs : list Z) :
  Sorted Z.lt xs ->
  forall i j x y,
    index xs i = Some x -> index xs j = Some y -> i < j -> x < y.
Proof.
  intros HS. apply Sorted_StronglySorted in HS;
    [|intros a b c; apply Z.lt_trans].
  induction HS as [|a l HS IH Hall]; intros i j x y Hi Hj Hij.
  - apply index_In in Hi. destruct Hi.
  - pose proof (index_Some_lt _ _ _ Hi) as Bi.
    pose proof (index_Some_lt _ _ _ Hj) as Bj.
    unfold index in Hi, Hj.
    destruct (i <? 0) eqn:Ei; [discriminate|].
    destruct (j <? 0) eqn:Ej; [discriminate|].
    destruct (Z.to_nat j) as [|j'] eqn:Nj; [lia|]. simpl in Hj.
    destruct (Z.to_nat i) as [|i'] eqn:Ni; simpl in Hi.
    + injection Hi as <-. apply nth_error_In in Hj.
      rewrite Forall_forall in Hall. now apply Hall.
    + apply (IH (Z.of_nat i') (Z.of_nat j')); unfold index.
      * destruct (Z.of_nat i' <? 0) eqn:E; [apply Z.ltb_lt in E; lia|].
        now rewrite Nat2Z.id.
      * destruct (Z.of_nat j' <? 0) eqn:E; [apply Z.ltb_lt in E; lia|].
        now rewrite Nat2Z.id.
      * lia.
Qed.

(** ** A length beyond the array *)

(** With more indices allowed than the array has and a target above every
    element, the loop moves [left] up until a read falls outside the
    array. *)
Lemma while_runs_off (fuel : nat) :
  forall target left right st,
    (forall x, In x (mem st) -> x < target) ->
    arr_len st <= right -> right < Int.max_int ->
    0 <= left <= right ->
    (Z.to_nat (right - left + 1) <= fuel)%nat ->
    while fuel target left right st = Stuck OutOfBounds.
Proof.
  induction fuel as [|fuel IH]; intros target left right st Hbig Hlen Hr Hl Hf;
    [lia|].
  rewrite while_iter by lia.
  pose proof (half_bounds (right - left) ltac:(lia)) as Hq.
  unfold bind. rewrite body_by_read by lia.
  destruct (index (mem st) (left + Z.quot (right - left) 2)) as [x|] eqn:Hx;
    [|reflexivity].
  pose proof (index_Some_lt _ _ _ Hx) as Hm. fold (arr_len st) in Hm.
  pose proof (Hbig x (index_In _ _ _ Hx)) as Hlt.
  unfold decision.
  destruct (Z.eqb_spec x target) as [E|E]; [lia|].
  destruct (Z.ltb_spec x target) as [L|L]; [|lia].
  apply IH; auto; lia.
Qed.

(** X1: a length that is zero or negative (but not [min_int]) makes the
    call return -1 at once, whatever the array holds and without reading
    it. *)
Theorem binary_search_nonpositive_length (n target : Z) (st : state) :
  Int.min_int < n <= 0 ->
  binary_search n target st = Ok (-1, st) /\
  forall fuel, binary_search_fuel fuel n target st = Ok (-1, st).
Proof.
  intros H. pose proof int_bounds as [Hmin Hmax].
  assert (Hgen : forall fuel,
             binary_search_fuel fuel n target st = Ok (-1, st)).
  { intros fuel. unfold binary_search_fuel, sub.
    rewrite (bind_step _ _ _ _ _ (checked_ok (n - 1) st ltac:(lia))).
    apply while_exit. lia. }
  split; [apply Hgen | exact Hgen].
Qed.

Lemma binary_search_nonpositive_length_witness :
  Int.min_int < -4 <= 0 /\
  binary_search (-4) 9 (mkState [9; 9] EmptyString)
    = Ok (-1, mkState [9; 9] EmptyString).
Proof.
  assert (H : Int.min_int < -4 <= 0) by int_range.
  split; [exact H|].
  exact (proj1 (binary_search_nonpositive_length (-4) 9
                  (mkState [9; 9] EmptyString) H)).
Defined.

(** X2: for a length that is an [int], the call ends in a signed overflow
    exactly when the length is [min_int], where [n - 1] overflows: no other
    arithmetic of the function can overflow, whatever the array and the
    target. *)
Theorem binary_search_overflow_iff (n target : Z) (st : state) :
  Int.fits n = true ->
  (binary_search n target st = Stuck SignedOverflow <-> n = Int.min_int).
Proof.
  intros Hn. apply fits_iff in Hn. pose proof int_bounds as [Hmin Hmax].
  split.
  - intros H. destruct (Z.eq_dec n Int.min_int) as [E|E]; [exact E|].
    exfalso. unfold binary_search, binary_search_fuel, sub in H.
    rewrite (bind_step _ _ _ _ _ (checked_ok (n - 1) st ltac:(lia))) in H.
    revert H. apply while_no_overflow; lia.
  - intros ->. reflexivity.
Qed.

Lemma binary_search_overflow_iff_witness :
  Int.fits (-2147483648) = true /\
  binary_search (-2147483648) 0 (mkState [] EmptyString)
    = Stuck SignedOverflow.
Proof.
  split; [reflexivity|].
  exact (proj2 (binary_search_overflow_iff (-2147483648) 0
                  (mkState [] EmptyString) eq_refl) eq_refl).
Defined.

(** X3: whatever the array (sorted or not) and whatever [n], a value the
    call returns is -1 or an index in [0, n) at which the target is
    stored: the function never reports a position that does not hold the
    target. *)
Theorem binary_search_result_sound (n target r : Z) (st st' : state) :
  binary_search n target st = Ok (r, st') ->
  r = -1 \/ (0 <= r < n /\ index (mem st) r = Some target).
Proof.
  unfold binary_search, binary_search_fuel, sub. intros H.
  apply bind_Ok in H as (right & s1 & Hr & H).
  apply checked_inv in Hr as (-> & -> & _).
  apply while_hit in H as [-> | [Hv Hi]]; [now left|right].
  split; [lia | exact Hi].
Qed.

Lemma binary_search_result_sound_witness :
  binary_search 3 5 (mkState [5; 1; 5] EmptyString)
    = Ok (2, mkState [5; 1; 5] EmptyString) /\
  (2 = -1 \/ (0 <= 2 < 3 /\ index [5; 1; 5] 2 = Some 5)).
Proof.
  split; [reflexivity|].
  exact (binary_search_result_sound 3 5 2 (mkState [5; 1; 5] EmptyString)
           (mkState [5; 1; 5] EmptyString) eq_refl).
Defined.

(** X4: in a strictly increasing array the search for the element at index
    [i] returns [i] itself. *)
Theorem binary_search_exact_index (xs : list Z) (o : string) (i x : Z) :
  Sorted Z.lt xs ->
  Z.of_nat (List.length xs) <= Int.max_int ->
  index xs i = Some x ->
  binary_search (Z.of_nat (List.length xs)) x (mkState xs o)
    = Ok (i, mkState xs o).
Proof.
  intros HS Hn Hi.
  destruct (binary_search_fuel_sorted
              (Z.to_nat (Z.of_nat (List.length xs))) x (mkState xs o)
              (Sorted_lt_le _ HS) Hn (Nat.le_refl _))
    as (v & Hv & [[_ Habs] | Hfound]).
  - exfalso. apply Habs. exact (index_In _ _ _ Hi).
  - simpl in Hfound. assert (v = i) as <-; [|exact Hv].
    destruct (Z.lt_trichotomy v i) as [L | [E | L]]; [|exact E|].
    + pose proof (Sorted_lt_index _ HS _ _ _ _ Hfound Hi L). lia.
    + pose proof (Sorted_lt_index _ HS _ _ _ _ Hi Hfound L). lia.
Qed.

Lemma binary_search_exact_index_witness :
  Sorted Z.lt [-3; 0; 4; 10] /\
  Z.of_nat (List.length [-3; 0; 4; 10]) <= Int.max_int /\
  index [-3; 0; 4; 10] 3 = Some 10 /\
  binary_search 4 10 (mkState [-3; 0; 4; 10] EmptyString)
    = Ok (3, mkState [-3; 0; 4; 10] EmptyString).
Proof.
  assert (HS : Sorted Z.lt [-3; 0; 4; 10]) by (repeat constructor; lia).
  assert (Hn : Z.of_nat (List.length [-3; 0; 4; 10]) <= Int.max_int)
    by int_range.
  refine (conj HS (conj Hn (conj eq_refl _))).
  exact (binary_search_exact_index [-3; 0; 4; 10] EmptyString 3 10
           HS Hn eq_refl).
Defined.

(** X5: a call depends on the first [n] elements only: two arrays that
    agree on the indices below [n] give the same outcome (result or
    fault), whatever they hold from index [n] on and however long they
    are. *)
Theorem binary_search_prefix_only (n target : Z) (sa sb : state) :
  Int.fits n = true ->
  (forall i, 0 <= i < n -> index (mem sa) i = index (mem sb) i) ->
  match binary_search n target sa, binary_search n target sb with
  | Ok (ra, sa'), Ok (rb, sb') => ra = rb /\ sa' = sa /\ sb' = sb
  | Stuck fa, Stuck fb => fa = fb
  | _, _ => False
  end.
Proof.
  intros Hn Hag. unfold binary_search.
  now apply binary_search_fuel_agree.
Qed.

Lemma binary_search_prefix_only_witness :
  Int.fits 2 = true /\
  (forall i, 0 <= i < 2 ->
     index (mem (mkState [1; 4; 0; 0] EmptyString)) i
       = index (mem (mkState [1; 4] EmptyString)) i) /\
  match binary_search 2 4 (mkState [1; 4; 0; 0] EmptyString),
        binary_search 2 4 (mkState [1; 4] EmptyString) with
  | Ok (ra, sa'), Ok (rb, sb') =>
      ra = rb /\ sa' = mkState [1; 4; 0; 0] EmptyString /\
      sb' = mkState [1; 4] EmptyString
  | Stuck fa, Stuck fb => fa = fb
  | _, _ => False
  end.
Proof.
  assert (Hag : forall i, 0 <= i < 2 ->
            index (mem (mkState [1; 4; 0; 0] EmptyString)) i
              = index (mem (mkState [1; 4] EmptyString)) i).
  { intros i Hi. assert (i = 0 \/ i = 1) as [-> | ->] by lia; reflexivity. }
  refine (conj eq_refl (conj Hag _)).
  exact (binary_search_prefix_only 2 4 (mkState [1; 4; 0; 0] EmptyString)
           (mkState [1; 4] EmptyString) eq_refl Hag).
Defined.

(** X6: a length [n] below the array length searches the first [n]
    elements: when these are sorted, the call returns an index below [n]
    holding the target, or -1 when the target is not among them (it may
    well occur further on). *)
Theorem binary_search_prefix_sorted (xs : list Z) (o : string)
    (n target : Z) :
  0 <= n <= Z.of_nat (List.length xs) ->
  n <= Int.max_int ->
  Sorted Z.le (firstn (Z.to_nat n) xs) ->
  exists r,
    binary_search n target (mkState xs o) = Ok (r, mkState xs o) /\
    ((r = -1 /\ ~ In target (firstn (Z.to_nat n) xs)) \/
     (0 <= r < n /\ index xs r = Some target)).
Proof.
  intros Hn Hmax HS. pose proof int_bounds as [Hmin Hmax'].
  set (sp := mkState (firstn (Z.to_nat n) xs) o).
  assert (Hlen : arr_len sp = n).
  { unfold arr_len, sp. simpl. rewrite length_firstn. lia. }
  destruct (binary_search_fuel_sorted (Z.to_nat n) target sp HS
              ltac:(lia) ltac:(lia)) as (v & Hv & Hpost).
  rewrite Hlen in Hv.
  assert (Hag : forall i, 0 <= i < n ->
            index (mem (mkState xs o)) i = index (mem sp) i).
  { intros i Hi. simpl. symmetry. now apply index_firstn. }
  pose proof (binary_search_fuel_agree (Z.to_nat n) n target
                (mkState xs o) sp ltac:(apply fits_iff; lia) Hag) as Hsame.
  rewrite Hv in Hsame. unfold binary_search.
  destruct (binary_search_fuel (Z.to_nat n) n target (mkState xs o))
    as [[ra sa']|fa]; [|contradiction].
  destruct Hsame as (-> & -> & _).
  exists v. split; [reflexivity|].
  destruct Hpost as [[-> Habs] | Hfound]; [left; auto|right].
  simpl in Hfound.
  pose proof (index_Some_lt _ _ _ Hfound) as Hb.
  rewrite length_firstn in Hb.
  assert (Hv' : 0 <= v < n) by lia.
  split; [exact Hv'|]. now rewrite <- (index_firstn xs n v Hv').
Qed.

Lemma binary_search_prefix_sorted_witness :
  0 <= 3 <= Z.of_nat (List.length [2; 5; 8; 1; 5]) /\
  3 <= Int.max_int /\
  Sorted Z.le (firstn (Z.to_nat 3) [2; 5; 8; 1; 5]) /\
  exists r,
    binary_search 3 1 (mkState [2; 5; 8; 1; 5] EmptyString)
      = Ok (r, mkState [2; 5; 8; 1; 5] EmptyString) /\
    ((r = -1 /\ ~ In 1 (firstn (Z.to_nat 3) [2; 5; 8; 1; 5])) \/
     (0 <= r < 3 /\ index [2; 5; 8; 1; 5] r = Some 1)).
Proof.
  assert (H1 : 0 <= 3 <= Z.of_nat (List.length [2; 5; 8; 1; 5]))
    by (simpl; lia).
  assert (H2 : 3 <= Int.max_int) by int_range.
  assert (HS : Sorted Z.le (firstn (Z.to_nat 3) [2; 5; 8; 1; 5]))
    by (simpl; repeat constructor; lia).
  refine (conj H1 (conj H2 (conj HS _))).
  exact (binary_search_prefix_sorted [2; 5; 8; 1; 5] EmptyString 3 1
           H1 H2 HS).
Defined.

(** X7: the result of a call on an array of [n] elements, sorted or not,
    is reached within [log2 n + 1] iterations of the loop: any bound on
    the iterations at least that large gives the result of the call. *)
Theorem binary_search_log_iterations (xs : list Z) (o : string)
    (target : Z) (fuel : nat) :
  Z.of_nat (List.length xs) <= Int.max_int ->
  (Z.to_nat (Z.log2 (Z.of_nat (List.length xs))) + 1 <= fuel)%nat ->
  exists r,
    binary_search (Z.of_nat (List.length xs)) target (mkState xs o)
      = Ok (r, mkState xs o) /\
    binary_search_fuel fuel (Z.of_nat (List.length xs)) target
      (mkState xs o) = Ok (r, mkState xs o).
Proof.
  intros Hn Hf. set (n := Z.of_nat (List.length xs)) in *.
  destruct (binary_search_fuel_any (Z.to_nat n) target (mkState xs o) Hn
              (Nat.le_refl _)) as (r & Hr & _).
  change (arr_len (mkState xs o)) with n in Hr.
  exists r. split; [exact Hr|].
  rewrite <- Hr.
  apply (binary_search_logarithmic fuel target (mkState xs o) Hn).
  change (arr_len (mkState xs o)) with n.
  pose proof (Z.log2_nonneg n) as Hlog.
  assert (Hpow : 2 ^ (Z.log2 n + 1) <= 2 ^ Z.of_nat fuel)
    by (apply Z.pow_le_mono_r; lia).
  destruct (Z.eq_dec n 0) as [E|E].
  - rewrite E in *. simpl in Hpow. lia.
  - pose proof (Z.log2_spec n ltac:(subst n; lia)) as [_ Hup].
    unfold Z.succ in Hup. lia.
Qed.

Lemma binary_search_log_iterations_witness :
  Z.of_nat (List.length demo_arr) <= Int.max_int /\
  (Z.to_nat (Z.log2 (Z.of_nat (List.length demo_arr))) + 1 <= 3)%nat /\
  exists r,
    binary_search 7 4 (mkState demo_arr EmptyString)
      = Ok (r, mkState demo_arr EmptyString) /\
    binary_search_fuel 3 7 4 (mkState demo_arr EmptyString)
      = Ok (r, mkState demo_arr EmptyString).
Proof.
  assert (Hn : Z.of_nat (List.length demo_arr) <= Int.max_int)
    by (unfold demo_arr; int_range).
  assert (Hf : (Z.to_nat (Z.log2 (Z.of_nat (List.length demo_arr))) + 1
                <= 3)%nat) by (simpl; lia).
  refine (conj Hn (conj Hf _)).
  exact (binary_search_log_iterations demo_arr EmptyString 4 3 Hn Hf).
Defined.

(** X8: the function does not check [n] against the array: with [n]
    larger than the number of elements and a target above every element,
    the call reads outside the array. *)
Theorem binary_search_oversized_length (xs : list Z) (o : string)
    (n target : Z) :
  Z.of_nat (List.length xs) < n ->
  n <= Int.max_int ->
  (forall x, In x xs -> x < target) ->
  binary_search n target (mkState xs o) = Stuck OutOfBounds.
Proof.
  intros Hlen Hn Hbig. pose proof int_bounds as [Hmin Hmax].
  unfold binary_search, binary_search_fuel, sub.
  rewrite (bind_step _ _ _ _ _
             (checked_ok (n - 1) (mkState xs o) ltac:(lia))).
  apply while_runs_off; try exact Hbig; unfold arr_len; simpl; lia.
Qed.

Lemma binary_search_oversized_length_witness :
  Z.of_nat (List.length [1; 2]) < 3 /\
  3 <= Int.max_int /\
  (forall x, In x [1; 2] -> x < 5) /\
  binary_search 3 5 (mkState [1; 2] EmptyString) = Stuck OutOfBounds.
Proof.
  assert (H1 : Z.of_nat (List.length [1; 2]) < 3) by (simpl; lia).
  assert (H2 : 3 <= Int.max_int) by int_range.
  assert (H3 : forall x, In x [1; 2] -> x < 5) by (simpl; intros x; lia).
  refine (conj H1 (conj H2 (conj H3 _))).
  exact (binary_search_oversized_length [1; 2] EmptyString 3 5 H1 H2 H3).
Defined.
